(** * Visual verification scripts: verify_app.py, verify_autopilot.py,
      verify_refactor.py

    The three scripts under [verification/] drive a headless browser through
    Playwright's synchronous API and save a screenshot.  They are embedded
    here as programs of a small state-and-exception monad: the state is the
    chronological trace of what the script did (API calls and printed lines)
    together with the file system, and the environment (the browser, the web
    server, the disk) is an oracle that says which API call fails and when
    the awaited element shows up. *)

From Stdlib Require Import ZArith String List.
From stdpp Require Import gmap strings list.

Open Scope string_scope.
Open Scope list_scope.
Open Scope Z_scope.

(** ** Exceptions *)

(** The exceptions the Playwright calls of the scripts raise:
    [playwright.sync_api.Error], its subclass [TimeoutError], and [OSError]
    when the screenshot file cannot be written.  All three derive from
    Python's [Exception], so the clause [except Exception as e] of the
    scripts matches each of them.  Interrupts that do not derive from
    [Exception] ([KeyboardInterrupt], [SystemExit]) are not failures of a
    step and are left out. *)
Inductive exc_class := PlaywrightError | PlaywrightTimeoutError | OSError.

Record exc := Exc { exc_type : exc_class; exc_msg : string }.

(** [str(e)], as interpolated by the f-string [f"Error: {e}"]. *)
Definition str (e : exc) : string := exc_msg e.

Inductive outcome (A : Type) :=
| Returns (a : A)
| Raises (e : exc).
Arguments Returns {A} a.
Arguments Raises {A} e.

(** ** Playwright calls *)

(** The [state] keyword of [wait_for_selector]. *)
Inductive selector_state := Attached | Detached | Visible | Hidden.

(** The calls the scripts make, with the arguments as written at the call
    site: a keyword argument that is not passed is [None]. *)
Inductive call :=
| Launch (headless : bool)
| NewPage
| Goto (url : string)
| WaitForSelector (selector : string) (timeout : option Z)
                  (state : option selector_state)
| Click (selector : string)
| WaitForTimeout (ms : Z)
| Screenshot (path : string) (full_page : option bool)
| Close.

(** What a run leaves behind, in order. [Enter] and [Exit] are the entry and
    exit of the [with sync_playwright() as p] block. *)
Inductive event :=
| Enter
| Call (c : call)
| Print (line : string)
| Exit.

Definition image := list Byte.byte.

(** ** The environment *)

(** Playwright's documented defaults for the keyword arguments the scripts
    leave out (they come from the library, not from this repository). *)
Definition default_timeout : Z := 30000.
Definition default_state : selector_state := Visible.
Definition default_full_page : bool := false.

(** Every call is made at most once per run, so one answer per call
    describes the environment of a run.
    - [fails c]: the exception with which the call [c] fails, if it does;
    - [selector_ready sel st]: the number of milliseconds after which the
      element [sel] reaches the state [st], counted from the moment
      [wait_for_selector] is called; [None] when it never does;
    - [timeout_msg c]: the message of the [TimeoutError] of the call [c];
    - [rendered full_page]: the picture a screenshot captures. *)
Record world := World {
  fails : call -> option exc;
  selector_ready : string -> selector_state -> option Z;
  timeout_msg : call -> string;
  rendered : bool -> image
}.

Definition timeout_error (w : world) (c : call) : exc :=
  Exc PlaywrightTimeoutError (timeout_msg w c).

(** The exception a call ends with, [None] when it returns.
    [wait_for_selector] raises [TimeoutError] when the element has not
    reached the awaited state within the timeout. *)
Definition call_error (w : world) (c : call) : option exc :=
  match fails w c with
  | Some e => Some e
  | None =>
      match c with
      | WaitForSelector sel timeout st =>
          match selector_ready w sel (default default_state st) with
          | Some t =>
              if t <=? default default_timeout timeout then None
              else Some (timeout_error w c)
          | None => Some (timeout_error w c)
          end
      | _ => None
      end
  end.

(** The effect of a call that returns: [page.screenshot(path=...)] writes
    the captured picture to [path], replacing what was there. *)
Definition call_effect (w : world) (c : call)
    (files : gmap string image) : gmap string image :=
  match c with
  | Screenshot path full_page =>
      <[path := rendered w (default default_full_page full_page)]> files
  | _ => files
  end.

(** ** The monad of the scripts *)

Record state := mkState {
  trace : list event;
  fs : gmap string image
}.

Definition M (A : Type) : Type := world -> state -> outcome A * state.

Definition ret {A} (a : A) : M A := fun _ s => (Returns a, s).

Definition bind {A B} (m : M A) (k : A -> M B) : M B :=
  fun w s =>
    match m w s with
    | (Returns a, s') => k a w s'
    | (Raises e, s') => (Raises e, s')
    end.

Declare Scope py_scope.
Delimit Scope py_scope with py.
Notation "x <- m ;; k" := (bind m (fun x => k))
  (at level 100, m at next level, right associativity) : py_scope.
Notation "m ;; k" := (bind m (fun _ => k))
  (at level 100, right associativity) : py_scope.
Open Scope py_scope.

Definition emit (ev : event) (s : state) : state :=
  mkState (trace s ++ [ev]) (fs s).

(** A Playwright call: it is recorded, then it raises or takes effect.
    A call that raises is taken to leave the files as they were: what a
    screenshot whose write fails half-way leaves at its path is not
    modelled. *)
Definition perform (c : call) : M unit :=
  fun w s =>
    match call_error w c with
    | Some e => (Raises e, emit (Call c) s)
    | None =>
        (Returns tt, mkState (trace s ++ [Call c]) (call_effect w c (fs s)))
    end.

(** [print(line)] *)
Definition print (line : string) : M unit :=
  fun _ s => (Returns tt, emit (Print line) s).

(** [try: body  except Exception as e: handler(e)  finally: final].
    The [finally] suite runs on every way out; an exception it raises
    replaces the pending one. *)
Definition try_except_finally {A}
    (body : M A) (handler : exc -> M A) (final : M unit) : M A :=
  fun w s =>
    let (r, s1) :=
      match body w s with
      | (Returns a, s') => (Returns a, s')
      | (Raises e, s') => handler e w s'
      end in
    match final w s1 with
    | (Returns _, s2) => (r, s2)
    | (Raises e, s2) => (Raises e, s2)
    end.

(** [with sync_playwright() as p: body].  Starting and stopping the
    Playwright driver are taken not to raise. *)
Definition with_sync_playwright {A} (body : M A) : M A :=
  fun w s =>
    let (r, s1) := body w (emit Enter s) in
    (r, emit Exit s1).

(** The handles. There is one browser and one page per run. *)
Inductive browser := TheBrowser.
Inductive page := ThePage.

Definition chromium_launch (headless : bool) : M browser :=
  perform (Launch headless) ;; ret TheBrowser.
Definition new_page (b : browser) : M page :=
  perform NewPage ;; ret ThePage.
Definition goto (p : page) (url : string) : M unit :=
  perform (Goto url).
Definition wait_for_selector (p : page) (selector : string)
    (timeout : option Z) (st : option selector_state) : M unit :=
  perform (WaitForSelector selector timeout st).
Definition click (p : page) (selector : string) : M unit :=
  perform (Click selector).
Definition wait_for_timeout (p : page) (ms : Z) : M unit :=
  perform (WaitForTimeout ms).
Definition screenshot (p : page) (path : string) (full_page : option bool)
    : M unit :=
  perform (Screenshot path full_page).
Definition close (b : browser) : M unit :=
  perform Close.

(** ** The three scripts *)

Module VerifyApp.
(** verification/verify_app.py *)
Definition verify_app : M unit :=
  with_sync_playwright (
    browser <- chromium_launch true ;;
    page <- new_page browser ;;
    try_except_finally
      (goto page "http://localhost:5173" ;;
       wait_for_selector page "#canvas-container canvas" (Some 10000) None ;;
       screenshot page "verification/app_screenshot.png" None ;;
       print "Screenshot taken successfully")
      (fun e => print ("Error: " +:+ str e))
      (close browser)).
End VerifyApp.

Module VerifyAutopilot.
(** verification/verify_autopilot.py *)
Definition verify_app : M unit :=
  with_sync_playwright (
    browser <- chromium_launch true ;;
    page <- new_page browser ;;
    try_except_finally
      (print "Navigating to app..." ;;
       goto page "http://localhost:8000" ;;
       wait_for_selector page "#canvas-container canvas" (Some 5000) None ;;
       print "Clicking start overlay..." ;;
       click page "#start-overlay" ;;
       print "Waiting for autopilot..." ;;
       wait_for_timeout page 3000 ;;
       print "Taking screenshot..." ;;
       screenshot page "verification/autopilot_active.png" None ;;
       print "Screenshot saved.")
      (fun e => print ("Error: " +:+ str e))
      (close browser)).
End VerifyAutopilot.

Module VerifyRefactor.
(** verification/verify_refactor.py *)
Definition verify_app_loads : M unit :=
  with_sync_playwright (
    browser <- chromium_launch true ;;
    page <- new_page browser ;;
    try_except_finally
      (goto page "http://localhost:8080" ;;
       wait_for_selector page "canvas" None (Some Visible) ;;
       wait_for_timeout page 2000 ;;
       screenshot page "verification/app_running.png" None ;;
       print "Screenshot taken: verification/app_running.png")
      (fun e => print ("Error: " +:+ str e))
      (close browser)).
End VerifyRefactor.

(** ** The runs as linear plans *)

Inductive variant := App | Autopilot | Refactor.

Definition script (v : variant) : M unit :=
  match v with
  | App => VerifyApp.verify_app
  | Autopilot => VerifyAutopilot.verify_app
  | Refactor => VerifyRefactor.verify_app_loads
  end.

(** The suite of a [try] is a straight line of calls and printed lines. *)
Inductive item :=
| Do (c : call)
| Say (line : string).

Definition step (i : item) : M unit :=
  match i with
  | Do c => perform c
  | Say line => print line
  end.

Fixpoint steps (items : list item) : M unit :=
  match items with
  | [] => ret tt
  | i :: rest => step i ;; steps rest
  end.

(** The tables below repeat the literals of the three scripts;
    [script_runner] ties them to the code. *)
Definition target_url (v : variant) : string :=
  match v with
  | App => "http://localhost:5173"
  | Autopilot => "http://localhost:8000"
  | Refactor => "http://localhost:8080"
  end.

Definition ready_call (v : variant) : call :=
  match v with
  | App => WaitForSelector "#canvas-container canvas" (Some 10000) None
  | Autopilot => WaitForSelector "#canvas-container canvas" (Some 5000) None
  | Refactor => WaitForSelector "canvas" None (Some Visible)
  end.

Definition output_path (v : variant) : string :=
  match v with
  | App => "verification/app_screenshot.png"
  | Autopilot => "verification/autopilot_active.png"
  | Refactor => "verification/app_running.png"
  end.

Definition shot_call (v : variant) : call :=
  Screenshot (output_path v) None.

Definition success_line (v : variant) : string :=
  match v with
  | App => "Screenshot taken successfully"
  | Autopilot => "Screenshot saved."
  | Refactor => "Screenshot taken: verification/app_running.png"
  end.

(** What stands between the readiness wait and the screenshot. *)
Definition between (v : variant) : list item :=
  match v with
  | App => []
  | Autopilot =>
      [Say "Clicking start overlay..."; Do (Click "#start-overlay");
       Say "Waiting for autopilot..."; Do (WaitForTimeout 3000);
       Say "Taking screenshot..."]
  | Refactor => [Do (WaitForTimeout 2000)]
  end.

Definition preamble (v : variant) : list item :=
  match v with
  | Autopilot => [Say "Navigating to app..."]
  | _ => []
  end.

Definition try_suite (v : variant) : list item :=
  preamble v ++ [Do (Goto (target_url v)); Do (ready_call v)] ++
  between v ++ [Do (shot_call v); Say (success_line v)].

Definition error_line (e : exc) : string := "Error: " +:+ str e.

(** The common shape of the three scripts. *)
Definition runner (v : variant) : M unit :=
  with_sync_playwright (
    browser <- chromium_launch true ;;
    page <- new_page browser ;;
    try_except_finally
      (steps (try_suite v))
      (fun e => print (error_line e))
      (close browser)).

(** ** Runs and what they leave behind *)

(** A run starts with an empty log, on the files that are on disk. *)
Definition initial (files : gmap string image) : state := mkState [] files.

Definition result (v : variant) (w : world) (files : gmap string image)
    : outcome unit :=
  fst (script v w (initial files)).

Definition log (v : variant) (w : world) (files : gmap string image)
    : list event :=
  trace (snd (script v w (initial files))).

Definition files_after (v : variant) (w : world) (files : gmap string image)
    : gmap string image :=
  fs (snd (script v w (initial files))).

(** The calls of a log and the lines printed to the console, in order. *)
Definition calls (tr : list event) : list call :=
  omap (fun ev => match ev with Call c => Some c | _ => None end) tr.

Definition console (tr : list event) : list string :=
  omap (fun ev => match ev with Print l => Some l | _ => None end) tr.

Definition is_close (c : call) : bool :=
  match c with Close => true | _ => false end.

Definition is_screenshot (c : call) : bool :=
  match c with Screenshot _ _ => true | _ => false end.

Definition is_settle (c : call) : bool :=
  match c with WaitForTimeout _ => true | _ => false end.

Definition is_error_line (l : string) : bool := String.prefix "Error: " l.

(** Python's [needle in hay] on strings. *)
Fixpoint contains (needle hay : string) : bool :=
  String.prefix needle hay ||
  match hay with
  | EmptyString => false
  | String _ rest => contains needle rest
  end.

(** ** A run, read off the plan *)

(** The exception that ends a straight line of items, if one does. *)
Fixpoint plan_error (w : world) (items : list item) : option exc :=
  match items with
  | [] => None
  | Say _ :: rest => plan_error w rest
  | Do c :: rest =>
      match call_error w c with
      | Some e => Some e
      | None => plan_error w rest
      end
  end.

(** The events of a straight line of items: it stops with the first call
    that raises. *)
Fixpoint plan_events (w : world) (items : list item) : list event :=
  match items with
  | [] => []
  | Say l :: rest => Print l :: plan_events w rest
  | Do c :: rest =>
      match call_error w c with
      | Some _ => [Call c]
      | None => Call c :: plan_events w rest
      end
  end.

Fixpoint plan_files (w : world) (items : list item)
    (files : gmap string image) : gmap string image :=
  match items with
  | [] => files
  | Say _ :: rest => plan_files w rest files
  | Do c :: rest =>
      match call_error w c with
      | Some _ => files
      | None => plan_files w rest (call_effect w c files)
      end
  end.

Definition raise_or_return (o : option exc) : outcome unit :=
  match o with
  | Some e => Raises e
  | None => Returns tt
  end.

Definition handler_events (o : option exc) : list event :=
  match o with
  | Some e => [Print (error_line e)]
  | None => []
  end.

(** [returns w c]: the call [c] returns in the environment [w]. *)
Definition returns (w : world) (c : call) : bool :=
  match call_error w c with
  | None => true
  | Some _ => false
  end.

(** The [try] statement is entered once the browser is launched and the
    page is open. *)
Definition try_entered (w : world) : bool :=
  returns w (Launch true) && returns w NewPage.

Definition run_result (v : variant) (w : world) : outcome unit :=
  match call_error w (Launch true) with
  | Some e => Raises e
  | None =>
      match call_error w NewPage with
      | Some e => Raises e
      | None => raise_or_return (call_error w Close)
      end
  end.

Definition run_log (v : variant) (w : world) : list event :=
  match call_error w (Launch true) with
  | Some _ => [Enter; Call (Launch true); Exit]
  | None =>
      match call_error w NewPage with
      | Some _ => [Enter; Call (Launch true); Call NewPage; Exit]
      | None =>
          [Enter; Call (Launch true); Call NewPage] ++
          plan_events w (try_suite v) ++
          handler_events (plan_error w (try_suite v)) ++
          [Call Close; Exit]
      end
  end.

Definition run_files (v : variant) (w : world) (files : gmap string image)
    : gmap string image :=
  match call_error w (Launch true), call_error w NewPage with
  | None, None => plan_files w (try_suite v) files
  | _, _ => files
  end.

(** The click and the settle wait of each script. *)
Definition interaction (v : variant) : list call :=
  match v with
  | Autopilot => [Click "#start-overlay"]
  | _ => []
  end.

Definition settle (v : variant) : list call :=
  match v with
  | App => []
  | Autopilot => [WaitForTimeout 3000]
  | Refactor => [WaitForTimeout 2000]
  end.

(** The steps that come before the screenshot, and the whole sequence of
    the spec's state machine up to the capture. *)
Definition before_shot (v : variant) : list call :=
  [Launch true; NewPage; Goto (target_url v); ready_call v] ++
  interaction v ++ settle v.

Definition itinerary (v : variant) : list call :=
  before_shot v ++ [shot_call v].

(** The calls of a straight line of items. *)
Definition plan_calls (items : list item) : list call :=
  omap (fun i => match i with Do c => Some c | Say _ => None end) items.

(** The arguments of a readiness wait, with the defaults filled in. *)
Definition timeout_of (c : call) : option Z :=
  match c with
  | WaitForSelector _ timeout _ => timeout
  | _ => None
  end.

Definition effective_timeout (c : call) : Z :=
  default default_timeout (timeout_of c).

(** The awaited element does not reach the awaited state within the
    timeout of the wait [c]. *)
Definition timed_out (w : world) (c : call) : bool :=
  match c with
  | WaitForSelector sel timeout st =>
      match selector_ready w sel (default default_state st) with
      | Some t => negb (t <=? default default_timeout timeout)
      | None => true
      end
  | _ => false
  end.

(** The lines a run prints before its last one. *)
Definition progress_lines (v : variant) : list string :=
  match v with
  | Autopilot =>
      ["Navigating to app..."; "Clicking start overlay...";
       "Waiting for autopilot..."; "Taking screenshot..."]
  | _ => []
  end.

(** The two lines a run can end its report with. *)
Definition is_terminal_line (v : variant) (l : string) : bool :=
  is_error_line l || String.eqb l (success_line v).

(** The calls made up to and including the first one that raises. *)
Fixpoint until_failure (w : world) (cs : list call) : list call :=
  match cs with
  | [] => []
  | c :: rest =>
      match call_error w c with
      | Some _ => [c]
      | None => c :: until_failure w rest
      end
  end.

(** ** The lines of the try suite *)

(** The try suite without its last statement, the confirmation. *)
Definition body (v : variant) : list item :=
  preamble v ++ [Do (Goto (target_url v)); Do (ready_call v)] ++
  between v ++ [Do (shot_call v)].

(** The lines of a straight line of items. *)
Definition plan_lines (items : list item) : list string :=
  omap (fun i => match i with Say l => Some l | Do _ => None end) items.

(** ** Environments used in the examples *)

Definition png_viewport : image := [Byte.x89; Byte.x50; Byte.x4e; Byte.x47].
Definition png_full_page : image :=
  [Byte.x89; Byte.x50; Byte.x4e; Byte.x47; Byte.x0d; Byte.x0a].

Definition pictures (full_page : bool) : image :=
  if full_page then png_full_page else png_viewport.

(** Server up, canvas present after 100 ms, nothing fails. *)
Definition calm : world :=
  World (fun _ => None) (fun _ _ => Some 100)
        (fun _ => "Timeout exceeded.") pictures.

(** The browser starts but refuses to open a page. *)
Definition no_page : world :=
  World (fun c => match c with
                  | NewPage => Some (Exc PlaywrightError "Target closed")
                  | _ => None
                  end)
        (fun _ _ => Some 100) (fun _ => "Timeout exceeded.") pictures.

(** No server is listening: navigation fails. *)
Definition offline : world :=
  World (fun c => match c with
                  | Goto _ =>
                      Some (Exc PlaywrightError "net::ERR_CONNECTION_REFUSED")
                  | _ => None
                  end)
        (fun _ _ => None) (fun _ => "Timeout exceeded.") pictures.

(** The page loads but the canvas never shows up. *)
Definition no_canvas : world :=
  World (fun _ => None) (fun _ _ => None)
        (fun _ => "Timeout exceeded.") pictures.

(** The canvas shows up after 20 seconds. *)
Definition slow : world :=
  World (fun _ => None) (fun _ _ => Some 20000)
        (fun _ => "Timeout exceeded.") pictures.

(** The disk is full: the screenshot cannot be written. *)
Definition disk_full : world :=
  World (fun c => match c with
                  | Screenshot _ _ =>
                      Some (Exc OSError "No space left on device")
                  | _ => None
                  end)
        (fun _ _ => Some 100) (fun _ => "Timeout exceeded.") pictures.

(** The page never opens, and there is no canvas to wait for. *)
Definition no_page_no_canvas : world :=
  World (fun c => match c with
                  | NewPage => Some (Exc PlaywrightError "Target closed")
                  | _ => None
                  end)
        (fun _ _ => None) (fun _ => "Timeout exceeded.") pictures.

(** The canvas never shows up, and closing the browser fails as well. *)
Definition close_fails : world :=
  World (fun c => match c with
                  | Close => Some (Exc PlaywrightError "Connection closed")
                  | _ => None
                  end)
        (fun _ _ => None) (fun _ => "Timeout exceeded.") pictures.

Definition stale : gmap string image :=
  {[ "verification/app_screenshot.png" := [Byte.x00] ]}.

(** * Properties *)

(** ** The plan describes the code *)

Lemma steps_spec w items s :
  steps items w s =
  (raise_or_return (plan_error w items),
   mkState (trace s ++ plan_events w items) (plan_files w items (fs s))).
Proof.
  revert s; induction items as [|[c|l] rest IH]; intros s; simpl.
  - unfold ret. rewrite app_nil_r. by destruct s.
  - unfold bind, perform. destruct (call_error w c) as [e|]; simpl.
    + done.
    + rewrite IH; simpl. by rewrite <- app_assoc.
  - unfold bind, print. rewrite IH; simpl. by rewrite <- app_assoc.
Qed.

Lemma runner_spec v w s :
  runner v w s =
  (run_result v w,
   mkState (trace s ++ run_log v w) (run_files v w (fs s))).
Proof.
  unfold runner, with_sync_playwright, chromium_launch, new_page, close,
    run_result, run_log, run_files, bind, perform, ret, try_except_finally.
  destruct (call_error w (Launch true)) as [e|] eqn:HL.
  { unfold emit; cbn. rewrite <- ?app_assoc. reflexivity. }
  destruct (call_error w NewPage) as [e|] eqn:HN.
  { unfold emit; cbn. rewrite <- ?app_assoc. reflexivity. }
  rewrite steps_spec.
  destruct (plan_error w (try_suite v)) as [e|] eqn:HP;
    destruct (call_error w Close) as [e'|] eqn:HC;
    unfold print, emit; cbn; rewrite <- ?app_assoc; reflexivity.
Qed.

(** Each script is its variant of the common shape. *)
Lemma script_runner v w s : script v w s = runner v w s.
Proof.
  rewrite runner_spec.
  destruct v; cbn [script];
    unfold VerifyApp.verify_app, VerifyAutopilot.verify_app,
      VerifyRefactor.verify_app_loads,
      with_sync_playwright, chromium_launch, new_page, close, goto,
      wait_for_selector, click, wait_for_timeout, screenshot,
      run_result, run_log, run_files, bind, perform, print, ret,
      try_except_finally, try_suite, preamble, between, target_url,
      shot_call, output_path, success_line, ready_call;
    cbn [app plan_events plan_error plan_files emit trace fs];
    repeat match goal with
      | |- context [call_error w ?c] =>
          let E := fresh "E" in
          destruct (call_error w c) eqn:E; cbn
      end;
    unfold emit, error_line; cbn; rewrite <- ?app_assoc; try reflexivity.
Qed.

Lemma script_spec v w s :
  script v w s =
  (run_result v w,
   mkState (trace s ++ run_log v w) (run_files v w (fs s))).
Proof. rewrite script_runner. apply runner_spec. Qed.

Lemma result_spec v w files : result v w files = run_result v w.
Proof. unfold result. by rewrite script_spec. Qed.

Lemma log_spec v w files : log v w files = run_log v w.
Proof. unfold log, initial. by rewrite script_spec. Qed.

Lemma files_after_spec v w files : files_after v w files = run_files v w files.
Proof. unfold files_after, initial. by rewrite script_spec. Qed.

Lemma returns_true w c : returns w c = true <-> call_error w c = None.
Proof. unfold returns. destruct (call_error w c); split; congruence. Qed.

Lemma try_entered_inv w :
  try_entered w = true ->
  call_error w (Launch true) = None /\ call_error w NewPage = None.
Proof.
  unfold try_entered. rewrite andb_true_iff, !returns_true. tauto.
Qed.

Lemma run_log_entered v w :
  try_entered w = true ->
  run_log v w =
  [Enter; Call (Launch true); Call NewPage] ++
  plan_events w (try_suite v) ++
  handler_events (plan_error w (try_suite v)) ++ [Call Close; Exit].
Proof.
  intros [HL HN]%try_entered_inv. unfold run_log. by rewrite HL, HN.
Qed.

Lemma run_log_not_entered v w :
  try_entered w = false ->
  run_log v w = [Enter; Call (Launch true); Exit] \/
  run_log v w = [Enter; Call (Launch true); Call NewPage; Exit].
Proof.
  unfold try_entered, returns, run_log.
  destruct (call_error w (Launch true)); [by left|].
  destruct (call_error w NewPage); [by right|]. done.
Qed.

Lemma run_result_entered v w :
  try_entered w = true ->
  run_result v w = raise_or_return (call_error w Close).
Proof.
  intros [HL HN]%try_entered_inv. unfold run_result. by rewrite HL, HN.
Qed.

Lemma run_files_entered v w files :
  try_entered w = true ->
  run_files v w files = plan_files w (try_suite v) files.
Proof.
  intros [HL HN]%try_entered_inv. unfold run_files. by rewrite HL, HN.
Qed.

Lemma run_files_not_entered v w files :
  try_entered w = false -> run_files v w files = files.
Proof.
  unfold try_entered, returns, run_files.
  destruct (call_error w (Launch true)); [done|].
  by destruct (call_error w NewPage).
Qed.

(** ** Straight lines of items *)

Section Plans.
Variable w : world.

Lemma calls_app (l1 l2 : list event) : calls (l1 ++ l2) = calls l1 ++ calls l2.
Proof. apply omap_app. Qed.

Lemma console_app (l1 l2 : list event) :
  console (l1 ++ l2) = console l1 ++ console l2.
Proof. apply omap_app. Qed.

Lemma in_calls (tr : list event) c : In c (calls tr) <-> In (Call c) tr.
Proof.
  induction tr as [|[| c' | l |] tr IH]; simpl; [tauto|..].
  - rewrite IH. split; [tauto|]. intros [?|?]; [done|tauto].
  - rewrite IH. split; [intros [->|?]; tauto|].
    intros [[= ->]|?]; tauto.
  - rewrite IH. split; [tauto|]. intros [?|?]; [done|tauto].
  - rewrite IH. split; [tauto|]. intros [?|?]; [done|tauto].
Qed.

Lemma in_console (tr : list event) l : In l (console tr) <-> In (Print l) tr.
Proof.
  induction tr as [|[| c' | l' |] tr IH]; simpl; [tauto|..].
  - rewrite IH. split; [tauto|]. intros [?|?]; [done|tauto].
  - rewrite IH. split; [tauto|]. intros [?|?]; [done|tauto].
  - rewrite IH. split; [intros [->|?]; tauto|].
    intros [[= ->]|?]; tauto.
  - rewrite IH. split; [tauto|]. intros [?|?]; [done|tauto].
Qed.

Lemma calls_plan_events items :
  calls (plan_events w items) = until_failure w (plan_calls items).
Proof.
  induction items as [|[c|l] rest IH]; simpl; [done| |done].
  destruct (call_error w c); simpl; [done|]. by rewrite IH.
Qed.

Lemma plan_events_call items c :
  In (Call c) (plan_events w items) -> In (Do c) items.
Proof.
  induction items as [|[c'|l] rest IH]; simpl; [done|..].
  - destruct (call_error w c'); simpl.
    + intros [[= ->]|[]]. by left.
    + intros [[= ->]|?]; [by left|]. right; auto.
  - intros [?|?]; [done|]. right; auto.
Qed.

(** The call that raises is the last one made. *)
Lemma plan_error_sound items c e :
  In (Call c) (plan_events w items) ->
  call_error w c = Some e ->
  plan_error w items = Some e.
Proof.
  induction items as [|[c'|l] rest IH]; simpl; [done|..].
  - destruct (call_error w c') as [e'|] eqn:E; simpl.
    + intros [[= ->]|[]]. congruence.
    + intros [[= ->]|?] He; [congruence|]. auto.
  - intros [?|?] He; [done|]. auto.
Qed.

Lemma plan_error_complete items e :
  plan_error w items = Some e ->
  exists c, In (Do c) items /\ In (Call c) (plan_events w items) /\
            call_error w c = Some e.
Proof.
  induction items as [|[c'|l] rest IH]; simpl; [done|..].
  - destruct (call_error w c') as [e'|] eqn:E; simpl.
    + intros [= ->]. exists c'. auto.
    + intros (c & ? & ? & ?)%IH. exists c. auto.
  - intros (c & ? & ? & ?)%IH. exists c. auto.
Qed.

(** When nothing raises, every call of the line is made. *)
Lemma plan_events_all items :
  plan_error w items = None ->
  plan_events w items =
  map (fun i => match i with Do c => Call c | Say l => Print l end) items.
Proof.
  induction items as [|[c'|l] rest IH]; simpl; [done|..].
  - destruct (call_error w c'); [done|]. intros ?. f_equal; auto.
  - intros ?. f_equal; auto.
Qed.

Lemma plan_error_none items :
  plan_error w items = None <->
  Forall (fun c => call_error w c = None) (plan_calls items).
Proof.
  induction items as [|[c'|l] rest IH]; simpl.
  - split; [constructor|done].
  - destruct (call_error w c') eqn:E.
    + split; [done|]. intros H. inversion H; congruence.
    + rewrite IH. split; [by constructor|]. intros H. by inversion H.
  - done.
Qed.

Lemma plan_files_frame items files p :
  (forall fp, ~ In (Do (Screenshot p fp)) items) ->
  plan_files w items files !! p = files !! p.
Proof.
  revert files. induction items as [|[c'|l] rest IH]; simpl; intros files H;
    [done|..].
  - destruct (call_error w c') as [e'|] eqn:E; [done|].
    rewrite IH by (intros fp ?; apply (H fp); by right).
    destruct c'; try done. simpl.
    apply lookup_insert_ne. intros ->. apply (H full_page). by left.
  - apply IH. intros fp ?. apply (H fp). by right.
Qed.

End Plans.

(** ** The try suites of the three scripts *)

Lemma suite_calls v : plan_calls (try_suite v) = drop 2 (itinerary v).
Proof. by destruct v. Qed.

Lemma suite_call_inside v c :
  In (Do c) (try_suite v) ->
  c <> Launch true /\ c <> NewPage /\ c <> Close.
Proof.
  destruct v; simpl; intros H; repeat split; intros ->;
    repeat (destruct H as [H|H]; try discriminate H); done.
Qed.

Lemma suite_screenshot v c :
  In (Do c) (try_suite v) -> is_screenshot c = true -> c = shot_call v.
Proof.
  destruct v; simpl; intros H;
    repeat (destruct H as [H|H]; try discriminate H; try done);
    injection H as <-; done.
Qed.

Lemma handler_events_no_call o c : ~ In (Call c) (handler_events o).
Proof. destruct o; simpl; [intros [?|[]]|intros []]; done. Qed.

(** A call of the try suite that shows in the log was made inside the
    [try] statement. *)
Lemma made_in_suite v w c :
  In (Do c) (try_suite v) ->
  In (Call c) (run_log v w) ->
  try_entered w = true /\ In (Call c) (plan_events w (try_suite v)).
Proof.
  intros (HL & HN & HC)%suite_call_inside Hin.
  destruct (try_entered w) eqn:E.
  - split; [done|]. rewrite run_log_entered in Hin by done.
    rewrite !in_app_iff in Hin. simpl in Hin.
    destruct Hin as [Hin|[Hin|[Hin|Hin]]]; [|done| |].
    + destruct Hin as [?|[[= ?]|[[= ?]|[]]]]; done.
    + by apply handler_events_no_call in Hin.
    + destruct Hin as [[= ?]|[?|[]]]; done.
  - destruct (run_log_not_entered v w E) as [R|R]; rewrite R in Hin;
      simpl in Hin.
    + destruct Hin as [?|[[= ?]|[?|[]]]]; done.
    + destruct Hin as [?|[[= ?]|[[= ?]|[?|[]]]]]; done.
Qed.

Lemma filter_is_close_nil (cs : list call) :
  ~ In Close cs -> List.filter is_close cs = [].
Proof.
  induction cs as [|c cs IH]; simpl; [done|]. intros H.
  destruct c; simpl; try (apply IH; tauto). tauto.
Qed.

Lemma timed_out_error w c :
  timed_out w c = true ->
  exists e, call_error w c = Some e /\
            (fails w c = None -> e = timeout_error w c).
Proof.
  unfold call_error. destruct (fails w c) as [e|].
  { intros _. exists e. by split. }
  destruct c; simpl; try done.
  destruct (selector_ready w selector (default default_state state0));
    [|by eauto].
  destruct (z <=? default default_timeout timeout); simpl; [done|by eauto].
Qed.

Ltac plan_step :=
  cbn [plan_files plan_events plan_error plan_calls until_failure
       handler_events raise_or_return call_effect app omap].

(** Case analysis on the answers of the environment to the calls that
    show in the goal, in the order in which the script makes them. *)
Ltac by_cases w :=
  plan_step;
  repeat match goal with
    | |- context [call_error w ?c] =>
        let E := fresh "E" in destruct (call_error w c) eqn:E;
        plan_step; try congruence
    end;
  try reflexivity.

(** When a step that comes before the screenshot fails, the files are
    what they were. *)
Lemma run_files_failure_before_shot v w files c :
  In c (before_shot v) -> call_error w c <> None ->
  run_files v w files = files.
Proof.
  unfold run_files. intros Hin Hc.
  destruct v; cbn in Hin;
    repeat (destruct Hin as [Hin|Hin]; [subst c|]); try done;
    cbn [try_suite preamble between target_url ready_call shot_call
         output_path success_line app];
    by_cases w.
Qed.

(** ** The order of the calls *)

Section Order.
Variable w : world.

Lemma until_failure_app_ok pre cs :
  Forall (fun c => call_error w c = None) pre ->
  until_failure w (pre ++ cs) = pre ++ until_failure w cs.
Proof.
  induction 1 as [|c pre Hc _ IH]; simpl; [done|]. by rewrite Hc, IH.
Qed.

(** The calls made are an initial segment of the calls planned. *)
Lemma until_failure_prefix cs :
  exists rest, cs = until_failure w cs ++ rest.
Proof.
  induction cs as [|c cs [rest IH]]; simpl; [by exists []|].
  destruct (call_error w c).
  - by exists cs.
  - exists rest. simpl. by f_equal.
Qed.

(** A call is reached only when everything planned before it returned. *)
Lemma until_failure_reached pre c post :
  ~ In c pre ->
  In c (until_failure w (pre ++ c :: post)) ->
  Forall (fun c' => call_error w c' = None) pre.
Proof.
  induction pre as [|c' pre IH]; simpl; intros Hnot Hin; [constructor|].
  destruct (call_error w c') eqn:E.
  - destruct Hin as [->|[]]. tauto.
  - constructor; [done|]. apply IH; [tauto|].
    destruct Hin as [->|?]; [tauto|done].
Qed.

(** The calls of a run: the itinerary up to the first failure, and the
    close when the [try] statement was entered. *)
Lemma calls_run_log v :
  calls (run_log v w) =
  until_failure w (itinerary v) ++ (if try_entered w then [Close] else []).
Proof.
  unfold run_log, try_entered, returns.
  change (itinerary v) with
    (Launch true :: NewPage :: drop 2 (itinerary v)).
  rewrite <- suite_calls. simpl until_failure.
  destruct (call_error w (Launch true)); [done|].
  destruct (call_error w NewPage); [done|].
  rewrite !calls_app, calls_plan_events. simpl.
  destruct (plan_error w (try_suite v)); simpl; by rewrite app_nil_r || done.
Qed.

End Order.

Lemma shot_not_before v : ~ In (shot_call v) (before_shot v).
Proof.
  destruct v; simpl; intros H;
    repeat (destruct H as [H|H]; try discriminate H); done.
Qed.

Lemma before_shot_entered v w :
  Forall (fun c => call_error w c = None) (before_shot v) ->
  try_entered w = true.
Proof.
  unfold before_shot, try_entered. simpl. intros H.
  inversion H as [|? ? HL H']; subst. inversion H' as [|? ? HN _]; subst.
  by rewrite (proj2 (returns_true _ _) HL), (proj2 (returns_true _ _) HN).
Qed.

(** When the screenshot call is made, every step before it has returned
    and the run makes all its calls. *)
Lemma shot_reached v w :
  In (Call (shot_call v)) (run_log v w) ->
  Forall (fun c => call_error w c = None) (before_shot v) /\
  calls (run_log v w) = before_shot v ++ [shot_call v; Close].
Proof.
  rewrite <- in_calls, calls_run_log, in_app_iff. intros Hin.
  assert (In (shot_call v) (until_failure w (itinerary v))) as Hin'.
  { destruct Hin as [?|Hin]; [done|].
    destruct (try_entered w); simpl in Hin; [|done].
    by destruct Hin as [?|[]]. }
  pose proof (until_failure_reached w _ _ [] (shot_not_before v) Hin')
    as Hok.
  split; [done|].
  rewrite (before_shot_entered v w Hok).
  unfold itinerary. rewrite (until_failure_app_ok w _ _ Hok). simpl.
  rewrite <- app_assoc. by destruct (call_error w (shot_call v)).
Qed.

Lemma itinerary_ok_plan v w :
  Forall (fun c => call_error w c = None) (itinerary v) ->
  try_entered w = true /\ plan_error w (try_suite v) = None.
Proof.
  intros H. split.
  - apply (before_shot_entered v). unfold itinerary in H.
    by apply Forall_app in H as [? _].
  - apply plan_error_none. rewrite suite_calls. by apply Forall_drop.
Qed.

Lemma until_failure_subset w cs c : In c (until_failure w cs) -> In c cs.
Proof.
  destruct (until_failure_prefix w cs) as [rest E]. intros H.
  rewrite E, in_app_iff. by left.
Qed.

(** The call that raises is the last call of the line. *)
Lemma until_failure_ends w cs c :
  In c (until_failure w cs) -> call_error w c <> None ->
  exists pre, until_failure w cs = pre ++ [c].
Proof.
  induction cs as [|c' cs IH]; simpl; [done|].
  destruct (call_error w c') eqn:E.
  - intros [->|[]] _. by exists [].
  - intros [->|Hin] Hc; [done|].
    destruct (IH Hin Hc) as [pre ->]. by exists (c' :: pre).
Qed.

Lemma ready_in_suite v : In (Do (ready_call v)) (try_suite v).
Proof. destruct v; simpl; tauto. Qed.

Lemma ready_before_shot v : In (ready_call v) (before_shot v).
Proof. destruct v; simpl; tauto. Qed.

Lemma close_not_planned v : ~ In Close (itinerary v).
Proof.
  destruct v; simpl; intros H;
    repeat (destruct H as [H|H]; try discriminate H); done.
Qed.

(** An exception raised inside the [try] statement reaches the handler,
    which prints it. *)
Lemma caught_and_reported v w c e :
  In (Do c) (try_suite v) ->
  In (Call c) (run_log v w) ->
  call_error w c = Some e ->
  try_entered w = true /\
  plan_error w (try_suite v) = Some e /\
  In (error_line e) (console (run_log v w)).
Proof.
  intros Hc Hin He.
  destruct (made_in_suite v w c Hc Hin) as [Hent Hev].
  pose proof (plan_error_sound w _ c e Hev He) as Hp.
  repeat split; try done.
  rewrite run_log_entered, Hp by done.
  rewrite !console_app, !in_app_iff. right; right; left.
  simpl. by left.
Qed.

(** The files after a run: the screenshot is written exactly when the
    whole try suite went through. *)
Lemma run_files_cases v w files :
  run_files v w files =
  if try_entered w then
    match plan_error w (try_suite v) with
    | None => <[output_path v := rendered w default_full_page]> files
    | Some _ => files
    end
  else files.
Proof.
  destruct (try_entered w) eqn:E.
  - rewrite run_files_entered by done.
    destruct v;
      cbn [try_suite preamble between target_url ready_call shot_call
           output_path success_line app];
      by_cases w.
  - by apply run_files_not_entered.
Qed.

(** ** The console *)

Lemma is_error_line_error_line e : is_error_line (error_line e) = true.
Proof. unfold is_error_line, error_line. cbn. by destruct (str e). Qed.

Lemma success_is_no_error v : is_error_line (success_line v) = false.
Proof. by destruct v. Qed.

(** Of the lines a run prints inside the [try] statement, exactly the last
    one is a terminal line: the confirmation when the suite went through,
    the error line of the exception otherwise. *)
Lemma terminal_lines v w :
  try_entered w = true ->
  List.filter (is_terminal_line v) (console (run_log v w)) =
  match plan_error w (try_suite v) with
  | None => [success_line v]
  | Some e => [error_line e]
  end.
Proof.
  intros Hent. rewrite run_log_entered by done.
  rewrite !console_app, !List.filter_app. cbn [console omap List.filter app].
  rewrite app_nil_r.
  assert (forall e, List.filter (is_terminal_line v) [error_line e] =
                    [error_line e]) as Herr.
  { intros e. cbn [List.filter]. unfold is_terminal_line.
    by rewrite is_error_line_error_line. }
  destruct v;
    cbn [try_suite preamble between target_url ready_call shot_call
         output_path success_line app];
    by_cases w; cbn [console omap]; try apply Herr; reflexivity.
Qed.

Lemma console_of_success v w :
  try_entered w = true -> plan_error w (try_suite v) = None ->
  console (run_log v w) = progress_lines v ++ [success_line v].
Proof.
  intros Hent Hplan.
  rewrite run_log_entered, Hplan, plan_events_all by done.
  by destruct v.
Qed.

(** ** A page that never gets ready *)

(** When the awaited element does not show up in time, the [try] suite
    ends with an exception: the one of the navigation if that fails
    already, the one of the readiness wait otherwise. *)
Lemma unready_plan_error v w :
  timed_out w (ready_call v) = true ->
  exists e,
    plan_error w (try_suite v) = Some e /\
    (call_error w (Goto (target_url v)) = Some e \/
     call_error w (Goto (target_url v)) = None /\
     call_error w (ready_call v) = Some e).
Proof.
  intros (e & He & _)%timed_out_error.
  destruct (call_error w (Goto (target_url v))) as [e'|] eqn:Hg.
  - exists e'. split; [|by left].
    destruct v; simpl in *; by rewrite Hg.
  - exists e. split; [|by right].
    destruct v; simpl in *; by rewrite Hg, He.
Qed.

(** The readiness wait is made as soon as the navigation returns. *)
Lemma ready_call_made v w :
  try_entered w = true ->
  call_error w (Goto (target_url v)) = None ->
  In (Call (ready_call v)) (run_log v w).
Proof.
  intros [HL HN]%try_entered_inv Hg.
  rewrite <- in_calls, calls_run_log, in_app_iff. left.
  unfold itinerary, before_shot. simpl. rewrite HL, HN, Hg.
  destruct (call_error w (ready_call v)); simpl; tauto.
Qed.

(** The confirmation is printed only by a suite that went through. *)
Lemma confirmation_means_no_error v w :
  In (success_line v) (console (run_log v w)) ->
  try_entered w = true /\ plan_error w (try_suite v) = None.
Proof.
  intros Hin. destruct (try_entered w) eqn:Hent.
  - split; [done|].
    assert (In (success_line v)
              (List.filter (is_terminal_line v) (console (run_log v w))))
      as Hf.
    { apply List.filter_In. split; [done|]. unfold is_terminal_line.
      by rewrite String.eqb_refl, orb_true_r. }
    rewrite terminal_lines in Hf by done.
    destruct (plan_error w (try_suite v)) as [e|]; [|done].
    destruct Hf as [Hf|[]].
    pose proof (is_error_line_error_line e) as H1.
    rewrite Hf, success_is_no_error in H1. done.
  - destruct (run_log_not_entered v w Hent) as [R|R];
      rewrite R in Hin; destruct Hin.
Qed.

(** * The claims *)

(** C1, as the scripts have it: a failure of a step inside the [try]
    statement (navigation, the readiness wait, the click, the settle wait,
    the screenshot) is caught in the run function and reported as the line
    [Error: <message>]; it does not reach the caller, the run ends the way
    [browser.close()] ends.  Opening the page happens before the [try]
    statement and is not covered. *)
Theorem failure_inside_try_is_caught v w files c e :
  In (Do c) (try_suite v) ->
  In (Call c) (log v w files) ->
  call_error w c = Some e ->
  result v w files = raise_or_return (call_error w Close) /\
  In (error_line e) (console (log v w files)).
Proof.
  rewrite result_spec, log_spec. intros Hc Hin He.
  destruct (caught_and_reported v w c e Hc Hin He) as (Hent & _ & Hline).
  split; [by apply run_result_entered|done].
Qed.

Lemma failure_inside_try_is_caught_witness :
  result Autopilot offline ∅ = Returns tt /\
  In "Error: net::ERR_CONNECTION_REFUSED" (console (log Autopilot offline ∅)).
Proof.
  apply (failure_inside_try_is_caught Autopilot offline ∅
           (Goto "http://localhost:8000")
           (Exc PlaywrightError "net::ERR_CONNECTION_REFUSED")).
  - simpl. tauto.
  - vm_compute. tauto.
  - reflexivity.
Defined.

(** C1 as stated fails for step 2: when [browser.new_page()] raises, the
    exception leaves [verify_app] and no error line is printed. *)
Lemma page_open_failure_escapes :
  call_error no_page NewPage = Some (Exc PlaywrightError "Target closed") /\
  result App no_page ∅ = Raises (Exc PlaywrightError "Target closed") /\
  console (log App no_page ∅) = [].
Proof. by vm_compute. Qed.

(** C2, as the scripts have it: once the page is open (the [try] statement
    is entered), [browser.close()] is called exactly once on every way out,
    as the last call of the run. *)
Theorem close_runs_once_after_page_open v w files :
  try_entered w = true ->
  List.filter is_close (calls (log v w files)) = [Close] /\
  exists before,
    log v w files = before ++ [Call Close; Exit] /\
    ~ In (Call Close) before.
Proof.
  intros Hent. rewrite log_spec. split.
  - rewrite calls_run_log, Hent, List.filter_app.
    rewrite filter_is_close_nil; [done|].
    intros H%until_failure_subset. by apply close_not_planned in H.
  - rewrite run_log_entered by done.
    exists ([Enter; Call (Launch true); Call NewPage] ++
            plan_events w (try_suite v) ++
            handler_events (plan_error w (try_suite v))).
    split; [by rewrite <- !app_assoc|].
    rewrite !in_app_iff. intros [H|[H|H]].
    + simpl in H. destruct H as [?|[?|[?|[]]]]; done.
    + apply plan_events_call, suite_call_inside in H. tauto.
    + by apply handler_events_no_call in H.
Qed.

Lemma close_runs_once_after_page_open_witness :
  List.filter is_close (calls (log Refactor disk_full ∅)) = [Close] /\
  exists before,
    log Refactor disk_full ∅ = before ++ [Call Close; Exit] /\
    ~ In (Call Close) before.
Proof.
  apply (close_runs_once_after_page_open Refactor disk_full ∅).
  reflexivity.
Defined.

(** C2 as stated fails when opening the page fails: the browser was
    launched, and the run ends without a call of [browser.close()]. *)
Lemma page_open_failure_skips_close :
  returns no_page (Launch true) = true /\
  returns no_page NewPage = false /\
  log App no_page ∅ = [Enter; Call (Launch true); Call NewPage; Exit] /\
  List.filter is_close (calls (log App no_page ∅)) = [].
Proof. by vm_compute. Qed.

(** C3, as the scripts have it: every readiness wait of a run is the one
    of its script; verify_app passes the timeout 10000 ms and
    verify_autopilot 5000 ms, verify_refactor passes none and waits up to
    Playwright's default.  In all three, a wait that returns found the
    element within that time, and a wait that runs out of time puts the run
    on the failure path: the error line is printed, no screenshot is taken
    and no confirmation is printed. *)
Theorem readiness_wait_timeout v w files :
  (forall sel t st,
     In (Call (WaitForSelector sel t st)) (log v w files) ->
     WaitForSelector sel t st = ready_call v) /\
  timeout_of (ready_call v) =
    match v with
    | App => Some 10000
    | Autopilot => Some 5000
    | Refactor => None
    end /\
  effective_timeout (ready_call v) =
    match v with
    | App => 10000
    | Autopilot => 5000
    | Refactor => default_timeout
    end /\
  (v <> Refactor ->
   exists t, timeout_of (ready_call v) = Some t /\ 5000 <= t <= 10000) /\
  (call_error w (ready_call v) = None ->
   timed_out w (ready_call v) = false) /\
  (In (Call (ready_call v)) (log v w files) ->
   timed_out w (ready_call v) = true ->
   (exists e, call_error w (ready_call v) = Some e /\
              In (error_line e) (console (log v w files))) /\
   ~ In (Call (shot_call v)) (log v w files) /\
   ~ In (success_line v) (console (log v w files))).
Proof.
  rewrite log_spec. split; [|split; [by destruct v|split; [by destruct v|]]].
  2: split; [intros Hv; destruct v; try done; eexists; split;
             try reflexivity; lia|].
  { intros sel t st Hin%in_calls. rewrite calls_run_log in Hin.
    apply in_app_iff in Hin as [Hin%until_failure_subset|Hin].
    - destruct v; simpl in Hin;
        repeat (destruct Hin as [Hin|Hin]; try discriminate Hin); done.
    - destruct (try_entered w); simpl in Hin; [|done].
      by destruct Hin as [?|[]]. }
  split.
  { intros Hok. destruct (timed_out w (ready_call v)) eqn:E; [|done].
    destruct (timed_out_error w _ E) as (e & He & _). congruence. }
  intros Hin Hto.
  destruct (timed_out_error w _ Hto) as (e & He & _).
  destruct (caught_and_reported v w _ e (ready_in_suite v) Hin He)
    as (Hent & Hplan & Hline).
  split; [by exists e|]. split.
  - intros [Hok _]%shot_reached.
    rewrite List.Forall_forall in Hok.
    specialize (Hok _ (ready_before_shot v)). congruence.
  - intros Hs.
    assert (In (success_line v)
              (List.filter (is_terminal_line v) (console (run_log v w))))
      as Hf.
    { apply List.filter_In. split; [done|]. unfold is_terminal_line.
      by rewrite String.eqb_refl, orb_true_r. }
    rewrite terminal_lines, Hplan in Hf by done.
    destruct Hf as [Hf|[]].
    pose proof (is_error_line_error_line e) as H1.
    rewrite Hf, success_is_no_error in H1. done.
Qed.

Lemma readiness_wait_timeout_witness :
  (exists e, call_error no_canvas (ready_call Refactor) = Some e /\
             In (error_line e) (console (log Refactor no_canvas ∅))) /\
  ~ In (Call (shot_call Refactor)) (log Refactor no_canvas ∅) /\
  ~ In (success_line Refactor) (console (log Refactor no_canvas ∅)).
Proof.
  destruct (readiness_wait_timeout Refactor no_canvas ∅)
    as (_ & _ & _ & _ & _ & H).
  apply H.
  - vm_compute. tauto.
  - reflexivity.
Defined.

(** C3 as stated fails for verify_refactor: its wait passes no timeout, and
    with a canvas that takes 20 seconds to show up the run still goes
    through to the confirmation. *)
Lemma refactor_wait_has_no_explicit_timeout :
  selector_ready slow "canvas" Visible = Some 20000 /\
  In (Call (WaitForSelector "canvas" None (Some Visible)))
     (log Refactor slow ∅) /\
  In (success_line Refactor) (console (log Refactor slow ∅)).
Proof. vm_compute. tauto. Qed.

(** C4, as the scripts have it: in a run that reaches the screenshot,
    verify_autopilot waits 3000 ms and verify_refactor 2000 ms between the
    readiness wait (and the click) and the screenshot, whatever the page
    shows; verify_app has no settle wait. *)
Theorem settle_wait_before_screenshot v w files :
  In (Call (shot_call v)) (log v w files) ->
  calls (log v w files) =
    [Launch true; NewPage; Goto (target_url v); ready_call v] ++
    interaction v ++ settle v ++ [shot_call v; Close] /\
  List.filter is_settle (calls (log v w files)) = settle v /\
  settle v =
    match v with
    | App => []
    | Autopilot => [WaitForTimeout 3000]
    | Refactor => [WaitForTimeout 2000]
    end /\
  Forall (fun c => exists ms, c = WaitForTimeout ms /\ 2000 <= ms <= 3000)
         (settle v).
Proof.
  rewrite log_spec. intros [_ Hcalls]%shot_reached.
  assert (calls (run_log v w) =
          [Launch true; NewPage; Goto (target_url v); ready_call v] ++
          interaction v ++ settle v ++ [shot_call v; Close]) as E.
  { rewrite Hcalls. unfold before_shot. by rewrite <- !app_assoc. }
  split; [done|]. split; [rewrite E; by destruct v|].
  split; [done|].
  destruct v; simpl; repeat constructor; eexists; split; try done; lia.
Qed.

Lemma settle_wait_before_screenshot_witness :
  calls (log Autopilot calm ∅) =
    [Launch true; NewPage; Goto "http://localhost:8000";
     WaitForSelector "#canvas-container canvas" (Some 5000) None;
     Click "#start-overlay"; WaitForTimeout 3000;
     Screenshot "verification/autopilot_active.png" None; Close] /\
  List.filter is_settle (calls (log Autopilot calm ∅)) =
    [WaitForTimeout 3000].
Proof.
  destruct (settle_wait_before_screenshot Autopilot calm ∅) as (H1 & H2 & _).
  - vm_compute. tauto.
  - split; [exact H1|exact H2].
Defined.

(** C4 as stated fails for verify_app: it takes the screenshot right after
    the readiness wait. *)
Lemma verify_app_has_no_settle_wait :
  calls (log App calm ∅) =
    [Launch true; NewPage; Goto "http://localhost:5173";
     WaitForSelector "#canvas-container canvas" (Some 10000) None;
     Screenshot "verification/app_screenshot.png" None; Close] /\
  List.filter is_settle (calls (log App calm ∅)) = [].
Proof. by vm_compute. Qed.

(** C5, as the scripts have it: the screenshot call passes the output path
    and no [full_page] argument, so the picture is Playwright's default
    one (the viewport); when the call returns, the file at the output path
    holds that picture, whatever was there before. *)
Theorem screenshot_written_to_output_path v w files :
  In (Call (shot_call v)) (log v w files) ->
  call_error w (shot_call v) = None ->
  (forall path fp, In (Call (Screenshot path fp)) (log v w files) ->
                   path = output_path v /\ fp = None) /\
  files_after v w files !! output_path v = Some (rendered w false) /\
  files_after v w files = <[output_path v := rendered w false]> files.
Proof.
  rewrite log_spec, files_after_spec. intros Hin Hshot.
  destruct (shot_reached v w Hin) as [Hok Hcalls].
  assert (Forall (fun c => call_error w c = None) (itinerary v)) as Hall.
  { unfold itinerary. apply Forall_app. split; [done|]. by constructor. }
  destruct (itinerary_ok_plan v w Hall) as [Hent Hplan].
  assert (run_files v w files = <[output_path v := rendered w false]> files)
    as E by (by rewrite run_files_cases, Hent, Hplan).
  split; [|split; [|done]].
  - intros path fp H%in_calls. rewrite Hcalls in H.
    destruct v; simpl in H;
      repeat (destruct H as [H|H]; try discriminate H); try done;
      by injection H as <- <-.
  - rewrite E. apply lookup_insert_eq.
Qed.

Lemma screenshot_written_to_output_path_witness :
  files_after App calm stale !! "verification/app_screenshot.png"
    = Some png_viewport.
Proof.
  apply (screenshot_written_to_output_path App calm stale).
  - vm_compute. tauto.
  - reflexivity.
Defined.

(** C5 as stated fails: the picture that ends up at the output path is the
    viewport, not the full page. *)
Lemma screenshot_is_not_full_page :
  In (Call (Screenshot "verification/app_screenshot.png" None))
     (log App calm stale) /\
  files_after App calm stale !! "verification/app_screenshot.png"
    = Some (rendered calm false) /\
  files_after App calm stale !! "verification/app_screenshot.png"
    <> Some (rendered calm true).
Proof.
  split; [vm_compute; tauto|]. split; [by vm_compute|].
  vm_compute. discriminate.
Qed.

(** C6, as the scripts have it: when every step succeeds the last line of
    the console is the confirmation of the script; the one of
    verify_refactor includes the output path, the other two do not. *)
Theorem success_is_confirmed v w files :
  Forall (fun c => call_error w c = None) (itinerary v) ->
  console (log v w files) = progress_lines v ++ [success_line v] /\
  (contains (output_path v) (success_line v) = true <-> v = Refactor).
Proof.
  rewrite log_spec. intros [Hent Hplan]%itinerary_ok_plan.
  split; [by apply console_of_success|].
  destruct v; vm_compute; split; congruence.
Qed.

Lemma success_is_confirmed_witness :
  console (log Refactor calm ∅) =
    ["Screenshot taken: verification/app_running.png"] /\
  (contains (output_path Refactor) (success_line Refactor) = true <->
   Refactor = Refactor).
Proof.
  apply (success_is_confirmed Refactor calm ∅).
  repeat constructor.
Defined.

(** C6 as stated fails for verify_app: every step succeeds and no line of
    the console includes the output path. *)
Lemma verify_app_confirmation_omits_path :
  Forall (fun c => call_error calm c = None) (itinerary App) /\
  console (log App calm ∅) = ["Screenshot taken successfully"] /\
  forallb (fun l => negb (contains (output_path App) l))
          (console (log App calm ∅)) = true.
Proof. split; [repeat constructor|]. by vm_compute. Qed.

(** C7, as the scripts have it: in a run that enters the [try] statement
    and in which the awaited element does not show up within the timeout,
    the exception (of the readiness wait, or of the navigation when that
    fails already, as with no server running) is caught and its error line
    is printed; no screenshot is taken, no confirmation is printed and the
    files are what they were.  The run then ends the way [browser.close()]
    ends.  When the navigation returns, the wait is made, and the line
    printed for a wait that runs out of time is the one of its
    [TimeoutError]. *)
Theorem missing_selector_is_reported v w files :
  try_entered w = true ->
  timed_out w (ready_call v) = true ->
  result v w files = raise_or_return (call_error w Close) /\
  (exists e,
     (call_error w (Goto (target_url v)) = Some e \/
      call_error w (Goto (target_url v)) = None /\
      call_error w (ready_call v) = Some e) /\
     In (error_line e) (console (log v w files))) /\
  (call_error w (Goto (target_url v)) = None ->
   In (Call (ready_call v)) (log v w files) /\
   (fails w (ready_call v) = None ->
    In (error_line (timeout_error w (ready_call v)))
       (console (log v w files)))) /\
  ~ In (Call (shot_call v)) (log v w files) /\
  ~ In (success_line v) (console (log v w files)) /\
  files_after v w files = files.
Proof.
  rewrite result_spec, log_spec, files_after_spec. intros Hent Hto.
  destruct (unready_plan_error v w Hto) as (e & Hplan & He).
  destruct (timed_out_error w _ Hto) as (e' & He' & Hmsg).
  assert (In (error_line e) (console (run_log v w))) as Hline.
  { rewrite run_log_entered, Hplan by done.
    rewrite !console_app, !in_app_iff. right; right; left. simpl. by left. }
  split; [by apply run_result_entered|].
  split; [by exists e|]. split; [|split; [|split]].
  - intros Hg. split; [by apply ready_call_made|].
    intros Hf. rewrite <- (Hmsg Hf).
    destruct He as [He|[_ He]]; congruence.
  - intros [Hok _]%shot_reached.
    rewrite List.Forall_forall in Hok.
    specialize (Hok _ (ready_before_shot v)). congruence.
  - intros [_ Hnone]%confirmation_means_no_error. congruence.
  - by rewrite run_files_cases, Hent, Hplan.
Qed.

Lemma missing_selector_is_reported_witness :
  result Autopilot offline stale = Returns tt /\
  In "Error: net::ERR_CONNECTION_REFUSED"
     (console (log Autopilot offline stale)) /\
  In "Error: Timeout exceeded." (console (log Refactor no_canvas stale)) /\
  files_after Refactor no_canvas stale = stale.
Proof.
  destruct (missing_selector_is_reported Autopilot offline stale)
    as (Hr & (e & He & Hline) & _); [reflexivity|reflexivity|].
  destruct (missing_selector_is_reported Refactor no_canvas stale)
    as (_ & _ & Hwait & _ & _ & Hfiles); [reflexivity|reflexivity|].
  split; [exact Hr|]. split; [|split; [|exact Hfiles]].
  - destruct He as [He|[He _]]; [|discriminate He].
    injection He as <-. exact Hline.
  - apply Hwait; reflexivity.
Defined.

(** C7 as stated fails in two runs in which the element never shows up.
    When opening the page fails, the exception leaves the run function and
    no error line is printed; when the wait has run out of time and
    [browser.close()] raises in its turn, the error line is printed but the
    exception of the close leaves the run function. *)
Lemma missing_selector_can_still_raise :
  (timed_out no_page_no_canvas (ready_call App) = true /\
   result App no_page_no_canvas ∅ =
     Raises (Exc PlaywrightError "Target closed") /\
   console (log App no_page_no_canvas ∅) = []) /\
  (timed_out close_fails (ready_call App) = true /\
   In (Call (ready_call App)) (log App close_fails ∅) /\
   console (log App close_fails ∅) = ["Error: Timeout exceeded."] /\
   result App close_fails ∅ =
     Raises (Exc PlaywrightError "Connection closed")).
Proof.
  split; [by vm_compute|].
  split; [reflexivity|]. split; [vm_compute; tauto|]. by vm_compute.
Qed.

(** C8, as the scripts have it: the calls of a run are the itinerary of
    its script (launch, page open, navigation, readiness wait, click in
    verify_autopilot, settle wait in verify_autopilot and verify_refactor,
    screenshot) up to the first call that raises, followed by the close
    when the [try] statement was entered.  The screenshot is taken only
    after the readiness wait returned, and a call of the [try] suite that
    raises is followed by the close alone. *)
Theorem calls_follow_the_itinerary v w files :
  calls (log v w files) =
    until_failure w (itinerary v) ++
    (if try_entered w then [Close] else []) /\
  itinerary v =
    [Launch true; NewPage; Goto (target_url v); ready_call v] ++
    interaction v ++ settle v ++ [shot_call v] /\
  (In (Call (shot_call v)) (log v w files) ->
     call_error w (ready_call v) = None /\
     exists a b,
       calls (log v w files) =
         a ++ ready_call v :: b ++ [shot_call v; Close] /\
       ~ In (shot_call v) (a ++ ready_call v :: b)) /\
  (forall c, In (Do c) (try_suite v) -> In (Call c) (log v w files) ->
     call_error w c <> None ->
     exists pre, calls (log v w files) = pre ++ [c; Close]).
Proof.
  rewrite log_spec. split; [apply calls_run_log|].
  split; [unfold itinerary, before_shot; by rewrite <- !app_assoc|].
  split.
  - intros [Hok Hcalls]%shot_reached. split.
    + rewrite List.Forall_forall in Hok. apply Hok, ready_before_shot.
    + exists [Launch true; NewPage; Goto (target_url v)],
        (interaction v ++ settle v).
      split.
      * rewrite Hcalls. unfold before_shot. simpl. by rewrite <- app_assoc.
      * apply (shot_not_before v).
  - intros c Hc Hin Hne.
    destruct (made_in_suite v w c Hc Hin) as [Hent _].
    apply in_calls in Hin. rewrite calls_run_log, Hent in *.
    apply in_app_iff in Hin as [Hin|[<-|[]]].
    + destruct (until_failure_ends w _ c Hin Hne) as [pre ->].
      exists pre. by rewrite <- app_assoc.
    + apply suite_call_inside in Hc. tauto.
Qed.

Lemma calls_follow_the_itinerary_witness :
  calls (log Autopilot no_canvas ∅) =
    [Launch true; NewPage; Goto "http://localhost:8000";
     WaitForSelector "#canvas-container canvas" (Some 5000) None] ++
    [Close] /\
  (exists pre,
     calls (log Refactor disk_full ∅) =
       pre ++ [Screenshot "verification/app_running.png" None; Close]) /\
  call_error calm (ready_call App) = None.
Proof.
  split; [|split].
  - apply (calls_follow_the_itinerary Autopilot no_canvas ∅).
  - destruct (calls_follow_the_itinerary Refactor disk_full ∅)
      as (_ & _ & _ & H).
    apply (H (shot_call Refactor)).
    + simpl. tauto.
    + vm_compute. tauto.
    + discriminate.
  - destruct (calls_follow_the_itinerary App calm ∅) as (_ & _ & H & _).
    apply H. vm_compute. tauto.
Defined.

(** C8 as stated fails when opening the page fails: the run stops there
    and does not go on to the close. *)
Lemma page_open_failure_ends_without_close :
  call_error no_page NewPage = Some (Exc PlaywrightError "Target closed") /\
  calls (log Autopilot no_page ∅) = [Launch true; NewPage].
Proof. by vm_compute. Qed.

(** C9: a run changes at most the file at the output path of its script,
    and changes nothing when a step that comes before the screenshot
    fails. *)
Theorem only_the_output_path_is_written v w files :
  (files_after v w files = files \/
   files_after v w files =
     <[output_path v := rendered w default_full_page]> files) /\
  (forall p, p <> output_path v ->
             files_after v w files !! p = files !! p) /\
  (forall c, In c (before_shot v) -> call_error w c <> None ->
             files_after v w files = files).
Proof.
  rewrite files_after_spec. repeat split.
  - rewrite run_files_cases.
    destruct (try_entered w); [|by left].
    destruct (plan_error w (try_suite v)); [by left|by right].
  - intros p Hp. destruct (try_entered w) eqn:E.
    + rewrite run_files_entered by done. apply plan_files_frame.
      intros fp Hin%suite_screenshot; [|done]. by injection Hin.
    + by rewrite run_files_not_entered.
  - intros c Hin Hc. by apply (run_files_failure_before_shot v w files c).
Qed.

Lemma only_the_output_path_is_written_witness :
  files_after Autopilot offline stale !! "verification/app_screenshot.png"
    = Some [Byte.x00] /\
  files_after Autopilot offline stale = stale.
Proof.
  destruct (only_the_output_path_is_written Autopilot offline stale)
    as (_ & Hframe & Hnone).
  split.
  - transitivity (stale !! "verification/app_screenshot.png").
    + apply Hframe. discriminate.
    + reflexivity.
  - apply (Hnone (Goto "http://localhost:8000")).
    + simpl. tauto.
    + discriminate.
Defined.

(** C10: in a run that enters the [try] statement exactly one terminal
    line is printed.  It is the confirmation if and only if the screenshot
    call was made and returned; an error line is printed if and only if a
    call of the [try] suite raised, and it is then [Error: ] followed by
    the message of that exception. *)
Theorem exactly_one_terminal_line v w files :
  try_entered w = true ->
  length (List.filter (is_terminal_line v) (console (log v w files)))
    = 1%nat /\
  (In (success_line v) (console (log v w files)) <->
   In (Call (shot_call v)) (log v w files) /\
   call_error w (shot_call v) = None) /\
  ((exists l, In l (console (log v w files)) /\ is_error_line l = true) <->
   (exists c, In (Do c) (try_suite v) /\ In (Call c) (log v w files) /\
              call_error w c <> None)) /\
  (forall c e, In (Do c) (try_suite v) -> In (Call c) (log v w files) ->
     call_error w c = Some e ->
     In (error_line e) (console (log v w files)) /\
     ~ In (success_line v) (console (log v w files)) /\
     forall l, In l (console (log v w files)) -> is_error_line l = true ->
               l = "Error: " +:+ str e).
Proof.
  rewrite log_spec. intros Hent.
  pose proof (terminal_lines v w Hent) as Hterm.
  assert (forall l, In l (console (run_log v w)) ->
                    is_terminal_line v l = true ->
                    In l (List.filter (is_terminal_line v)
                            (console (run_log v w)))) as Hfilter.
  { intros l ? ?. by apply List.filter_In. }
  assert (is_terminal_line v (success_line v) = true) as Hsucc.
  { unfold is_terminal_line. by rewrite String.eqb_refl, orb_true_r. }
  assert (forall l, is_error_line l = true -> is_terminal_line v l = true)
    as Herr.
  { intros l Hl. unfold is_terminal_line. by rewrite Hl. }
  assert (forall e, success_line v <> error_line e) as Hdiff.
  { intros e E. pose proof (is_error_line_error_line e) as H1.
    rewrite <- E, success_is_no_error in H1. done. }
  split; [|split; [|split]].
  - rewrite Hterm. by destruct (plan_error w (try_suite v)).
  - split.
    + intros Hin. specialize (Hfilter _ Hin Hsucc). rewrite Hterm in Hfilter.
      destruct (plan_error w (try_suite v)) as [e|] eqn:Hplan.
      { destruct Hfilter as [E|[]]. by destruct (Hdiff e). }
      apply plan_error_none in Hplan. rewrite suite_calls in Hplan.
      rewrite List.Forall_forall in Hplan. split.
      * rewrite run_log_entered by done.
        rewrite plan_events_all
          by (apply plan_error_none; rewrite suite_calls;
              by apply List.Forall_forall).
        destruct v; simpl; tauto.
      * apply Hplan. destruct v; simpl; tauto.
    + intros [[Hok _]%shot_reached Hshot].
      assert (Forall (fun c => call_error w c = None) (itinerary v))
        as Hall.
      { unfold itinerary. apply Forall_app. split; [done|]. by constructor. }
      destruct (itinerary_ok_plan v w Hall) as [_ Hplan].
      rewrite console_of_success, in_app_iff by done. right. by left.
  - split.
    + intros (l & Hin & Hl). specialize (Hfilter _ Hin (Herr _ Hl)).
      rewrite Hterm in Hfilter.
      destruct (plan_error w (try_suite v)) as [e|] eqn:Hplan.
      * destruct (plan_error_complete w _ e Hplan) as (c & Hc & Hev & He).
        exists c. split; [done|]. split; [|congruence].
        rewrite run_log_entered, !in_app_iff by done. right. by left.
      * destruct Hfilter as [E|[]]. rewrite <- E in Hl.
        by rewrite success_is_no_error in Hl.
    + intros (c & Hc & Hin & Hne).
      destruct (call_error w c) as [e|] eqn:He; [|done].
      destruct (caught_and_reported v w c e Hc Hin He) as (_ & _ & Hline).
      exists (error_line e). split; [done|apply is_error_line_error_line].
  - intros c e Hc Hin He.
    destruct (caught_and_reported v w c e Hc Hin He) as (_ & Hplan & Hline).
    rewrite Hplan in Hterm. split; [done|]. split.
    + intros Hs. specialize (Hfilter _ Hs Hsucc). rewrite Hterm in Hfilter.
      destruct Hfilter as [E|[]]. by destruct (Hdiff e).
    + intros l Hl Hlerr. specialize (Hfilter _ Hl (Herr _ Hlerr)).
      rewrite Hterm in Hfilter. by destruct Hfilter as [<-|[]].
Qed.

Lemma exactly_one_terminal_line_witness :
  length (List.filter (is_terminal_line Autopilot)
            (console (log Autopilot disk_full ∅))) = 1%nat /\
  In "Error: No space left on device" (console (log Autopilot disk_full ∅)) /\
  ~ In (success_line Autopilot) (console (log Autopilot disk_full ∅)).
Proof.
  destruct (exactly_one_terminal_line Autopilot disk_full ∅)
    as (H1 & _ & _ & H4).
  - reflexivity.
  - split; [exact H1|].
    destruct (H4 (shot_call Autopilot)
                 (Exc OSError "No space left on device"))
      as (Ha & Hb & _).
    + simpl. tauto.
    + vm_compute. tauto.
    + reflexivity.
    + split; [exact Ha|exact Hb].
Defined.

(** * Further properties of the scripts *)

(** ** More on straight lines of items *)

Section Lines.
Variable w : world.

Lemma plan_error_app pre rest :
  plan_error w (pre ++ rest) =
  match plan_error w pre with
  | Some e => Some e
  | None => plan_error w rest
  end.
Proof.
  induction pre as [|[c|l] pre IH]; simpl; [done| |done].
  by destruct (call_error w c).
Qed.

Lemma plan_events_app pre rest :
  plan_events w (pre ++ rest) =
  match plan_error w pre with
  | Some _ => plan_events w pre
  | None => plan_events w pre ++ plan_events w rest
  end.
Proof.
  induction pre as [|[c|l] pre IH]; simpl; [done|..].
  - destruct (call_error w c); [done|]. rewrite IH.
    by destruct (plan_error w pre).
  - rewrite IH. by destruct (plan_error w pre).
Qed.

(** The lines printed are an initial segment of the lines planned. *)
Lemma console_plan_events_prefix items :
  console (plan_events w items) `prefix_of` plan_lines items.
Proof.
  induction items as [|[c|l] items IH]; simpl; [done|..].
  - destruct (call_error w c); simpl; [apply prefix_nil|done].
  - by apply prefix_cons.
Qed.



End Lines.

Lemma try_suite_body v : try_suite v = body v ++ [Say (success_line v)].
Proof. by destruct v. Qed.

Lemma body_lines v : plan_lines (body v) = progress_lines v.
Proof. by destruct v. Qed.



Lemma itinerary_nodup v : List.NoDup (itinerary v).
Proof.
  destruct v; simpl;
    repeat (apply List.NoDup_cons; [simpl; intuition discriminate|]);
    apply List.NoDup_nil.
Qed.

(** The log of a run that enters the [try] statement: what the body of the
    suite leaves, one last line, the close, the exit. *)
Lemma run_log_shape v w :
  try_entered w = true ->
  run_log v w =
  ([Enter; Call (Launch true); Call NewPage] ++ plan_events w (body v)) ++
  [Print (match plan_error w (body v) with
          | None => success_line v
          | Some e => error_line e
          end);
   Call Close; Exit].
Proof.
  intros Hent. rewrite run_log_entered by done.
  rewrite try_suite_body, plan_events_app, plan_error_app.
  destruct (plan_error w (body v));
    cbn [plan_events plan_error handler_events];
    rewrite <- ?app_assoc; reflexivity.
Qed.

Lemma console_not_entered v w :
  try_entered w = false -> console (run_log v w) = [].
Proof. intros H. by destruct (run_log_not_entered v w H) as [-> | ->]. Qed.

Lemma output_path_inj v1 v2 : output_path v1 = output_path v2 -> v1 = v2.
Proof. destruct v1, v2; simpl; intros H; done || discriminate H. Qed.

(** ** The ways a run ends *)

(** X1: whether a run raises is decided by three calls alone: it raises
    the exception of the first of launch, page open and close that fails,
    and returns when all three return; nothing that happens between page
    open and close changes the result. *)
Theorem result_is_decided_by_launch_page_close v w files :
  result v w files =
    raise_or_return
      (plan_error w [Do (Launch true); Do NewPage; Do Close]) /\
  (result v w files = Returns tt <->
   call_error w (Launch true) = None /\ call_error w NewPage = None /\
   call_error w Close = None).
Proof.
  rewrite result_spec. unfold run_result. simpl.
  destruct (call_error w (Launch true)); simpl;
    [split; [done|split; [done|intros (? & _); done]]|].
  destruct (call_error w NewPage); simpl;
    [split; [done|split; [done|intros (_ & ? & _); done]]|].
  destruct (call_error w Close); simpl;
    split; try done; split; try done. intros (_ & _ & ?); done.
Qed.

(** X2: when the launch or the page open fails, the exception of that call
    leaves the run function, nothing is printed, no file is touched, and
    no call follows the failed one: after a failed launch no page is
    opened. *)
Theorem failed_start_is_silent v w files :
  try_entered w = false ->
  (exists e,
     result v w files = Raises e /\
     (call_error w (Launch true) = Some e \/
      call_error w (Launch true) = None /\ call_error w NewPage = Some e)) /\
  console (log v w files) = [] /\
  files_after v w files = files /\
  calls (log v w files) =
    if returns w (Launch true) then [Launch true; NewPage]
    else [Launch true].
Proof.
  rewrite result_spec, log_spec, files_after_spec. intros Hent.
  split; [|split; [by apply console_not_entered|
                   split; [by apply run_files_not_entered|]]].
  - unfold try_entered, returns in Hent. unfold run_result.
    destruct (call_error w (Launch true)) as [e|]; [by eauto|].
    destruct (call_error w NewPage) as [e|]; [by eauto|done].
  - unfold try_entered, returns in *. unfold run_log.
    destruct (call_error w (Launch true)); [done|].
    by destruct (call_error w NewPage).
Qed.

Lemma failed_start_is_silent_witness :
  (exists e,
     result Refactor no_page stale = Raises e /\
     (call_error no_page (Launch true) = Some e \/
      call_error no_page (Launch true) = None /\
      call_error no_page NewPage = Some e)) /\
  console (log Refactor no_page stale) = [] /\
  files_after Refactor no_page stale = stale /\
  calls (log Refactor no_page stale) = [Launch true; NewPage].
Proof.
  apply (failed_start_is_silent Refactor no_page stale). reflexivity.
Defined.

(** X4: a run makes no call twice, and its first call is the launch of a
    headless browser. *)
Theorem each_call_is_made_at_most_once v w files :
  List.NoDup (calls (log v w files)) /\
  exists rest, calls (log v w files) = Launch true :: rest.
Proof.
  rewrite log_spec, calls_run_log. split.
  - destruct (until_failure_prefix w (itinerary v)) as [rest E].
    pose proof (itinerary_nodup v) as Hnd. rewrite E in Hnd.
    apply List.NoDup_app_remove_r in Hnd.
    destruct (try_entered w); [|by rewrite app_nil_r].
    apply NoDup_ListNoDup, NoDup_app. repeat split.
    + by apply NoDup_ListNoDup.
    + intros c Hc%list_elem_of_In%until_failure_subset Hc'%list_elem_of_In.
      simpl in Hc'. destruct Hc' as [<-|[]].
      by apply close_not_planned in Hc.
    + apply NoDup_singleton.
  - change (itinerary v) with
      (Launch true :: NewPage :: drop 2 (itinerary v)).
    simpl. destruct (call_error w (Launch true)); eauto.
Qed.

(** ** The console and the files *)

(** X5: in a run that enters the [try] statement, the terminal line (the
    confirmation or the error line) is the last line printed, it is printed
    before the browser is closed, and the lines before it are the first
    progress lines of the script, in their order. *)
Theorem terminal_line_is_last v w files :
  try_entered w = true ->
  exists pre t,
    log v w files = pre ++ [Print t; Call Close; Exit] /\
    is_terminal_line v t = true /\
    console pre `prefix_of` progress_lines v /\
    console (log v w files) = console pre ++ [t].
Proof.
  rewrite log_spec. intros Hent. rewrite run_log_shape by done.
  eexists _, _. split; [reflexivity|]. split; [|split].
  - unfold is_terminal_line. destruct (plan_error w (body v)).
    + by rewrite is_error_line_error_line.
    + by rewrite String.eqb_refl, orb_true_r.
  - rewrite console_app. simpl. rewrite <- body_lines.
    apply console_plan_events_prefix.
  - by rewrite console_app.
Qed.

Lemma terminal_line_is_last_witness :
  exists pre t,
    log Autopilot no_canvas ∅ = pre ++ [Print t; Call Close; Exit] /\
    is_terminal_line Autopilot t = true /\
    console pre `prefix_of` progress_lines Autopilot /\
    console (log Autopilot no_canvas ∅) = console pre ++ [t].
Proof.
  apply (terminal_line_is_last Autopilot no_canvas ∅). reflexivity.
Defined.

(** X6: the confirmation is truthful.  It is printed exactly when every
    call from the launch to the screenshot returns, and the file at the
    output path then holds the picture of this run while every other file
    is as it was. *)
Theorem confirmation_means_the_file_was_written v w files :
  (In (success_line v) (console (log v w files)) <->
   Forall (fun c => call_error w c = None) (itinerary v)) /\
  (Forall (fun c => call_error w c = None) (itinerary v) ->
   files_after v w files = <[output_path v := rendered w false]> files).
Proof.
  rewrite log_spec, files_after_spec. split; [split|].
  - intros [[HL HN]%try_entered_inv Hplan]%confirmation_means_no_error.
    apply plan_error_none in Hplan. rewrite suite_calls in Hplan.
    change (itinerary v) with
      (Launch true :: NewPage :: drop 2 (itinerary v)).
    apply List.Forall_cons; [done|]. by apply List.Forall_cons.
  - intros [Hent Hplan]%itinerary_ok_plan.
    rewrite console_of_success, in_app_iff by done. right. by left.
  - intros [Hent Hplan]%itinerary_ok_plan.
    by rewrite run_files_cases, Hent, Hplan.
Qed.

Lemma confirmation_means_the_file_was_written_witness :
  In "Screenshot saved." (console (log Autopilot calm stale)) /\
  files_after Autopilot calm stale =
    <[output_path Autopilot := png_viewport]> stale.
Proof.
  destruct (confirmation_means_the_file_was_written Autopilot calm stale)
    as [Hiff Hfiles].
  split.
  - apply Hiff. repeat constructor.
  - apply Hfiles. repeat constructor.
Defined.

(** X7: running a script again leaves no trace of the earlier run.  When
    every call from the launch to the screenshot returns, the files after
    the run do not depend on what was at the output path before it: an
    older picture, or what an earlier failed run left there, is replaced by
    the new picture. *)
Theorem successful_run_forgets_the_old_picture v w files files' :
  Forall (fun c => call_error w c = None) (itinerary v) ->
  (forall p, p <> output_path v -> files !! p = files' !! p) ->
  files_after v w files = files_after v w files'.
Proof.
  rewrite !files_after_spec. intros [Hent Hplan]%itinerary_ok_plan Hagree.
  rewrite !run_files_cases, Hent, Hplan.
  apply map_eq. intros p.
  destruct (decide (p = output_path v)) as [->|Hp].
  - by rewrite !lookup_insert_eq.
  - rewrite !lookup_insert_ne by done. by apply Hagree.
Qed.

Lemma successful_run_forgets_the_old_picture_witness :
  files_after App calm stale = files_after App calm ∅.
Proof.
  apply (successful_run_forgets_the_old_picture App calm stale ∅).
  - repeat constructor.
  - intros p Hp. unfold stale. by rewrite lookup_singleton_ne, lookup_empty.
Defined.

(** X8: the three scripts write to three different paths, so a run of one
    never changes the picture of another, and runs of two different
    scripts leave the same files in either order. *)
Theorem scripts_do_not_clobber_each_other v1 v2 w1 w2 files :
  v1 <> v2 ->
  output_path v1 <> output_path v2 /\
  files_after v2 w2 files !! output_path v1 = files !! output_path v1 /\
  files_after v2 w2 (files_after v1 w1 files) =
  files_after v1 w1 (files_after v2 w2 files).
Proof.
  intros Hne.
  assert (output_path v1 <> output_path v2) as Hp
    by (intros H%output_path_inj; done).
  rewrite !files_after_spec, !run_files_cases. split; [done|]. split.
  - destruct (try_entered w2); [|done].
    destruct (plan_error w2 (try_suite v2)); [done|].
    by apply lookup_insert_ne.
  - destruct (try_entered w1), (try_entered w2); try done;
      destruct (plan_error w1 (try_suite v1)),
               (plan_error w2 (try_suite v2)); try done.
    by apply insert_insert_ne.
Qed.

Lemma scripts_do_not_clobber_each_other_witness :
  files_after Autopilot calm stale !! output_path App = stale !! output_path App /\
  files_after Autopilot calm (files_after App slow stale) =
  files_after App slow (files_after Autopilot calm stale).
Proof.
  apply (scripts_do_not_clobber_each_other App Autopilot slow calm stale).
  discriminate.
Defined.


